(** * neos: bounded/unbounded transforms and the expected CLs

    A shallow embedding of [neos.transforms] (nbs/03_transforms.ipynb) and of
    [neos.infer.expected_CLs].

    Numbers.  The Python code computes on IEEE doubles through [jax.numpy].
    They are embedded as the extended reals [fnum]: a finite value is an
    exact real number, and the three special values [+inf], [-inf] and [nan]
    are kept, because the code relies on them (no operation of [jax.numpy]
    used here raises: a division by zero, an [arcsin] outside [-1,1] and a
    [sqrt] of a negative number all produce a special value).  Rounding,
    overflow of finite values and the sign of zero are not part of [fnum];
    where a statement depends on them, the arithmetic of [to_bounded] is
    also given on binary64 numbers (module [Double]).

    Exceptions.  What does raise in the Python code (indexing, shape
    mismatch in a broadcast, a missing dictionary key, Python's division
    by zero, an argument that [jax.jit] cannot take) is embedded in the
    error monad [result]. *)

From Stdlib Require Import Floats.
From Stdlib Require Import Reals Lra.
From stdpp Require Import gmap strings list.

Open Scope R_scope.

(* ===================================================================== *)
(** * Numbers                                                             *)
(* ===================================================================== *)

Module Float.

Inductive fnum : Type :=
| Fin (r : R)
| PInf
| NInf
| NaN.

(** The infinity that a product or quotient with a finite factor [r]
    produces: its sign follows the sign of [r], and [r = 0] gives [nan]. *)
Definition by_sign (r : R) (pos neg : fnum) : fnum :=
  if Rlt_dec 0 r then pos else if Rlt_dec r 0 then neg else NaN.

Definition fopp (x : fnum) : fnum :=
  match x with
  | Fin a => Fin (- a)
  | PInf => NInf
  | NInf => PInf
  | NaN => NaN
  end.

Definition fadd (x y : fnum) : fnum :=
  match x, y with
  | NaN, _ | _, NaN => NaN
  | Fin a, Fin b => Fin (a + b)
  | PInf, NInf | NInf, PInf => NaN
  | PInf, _ | _, PInf => PInf
  | NInf, _ | _, NInf => NInf
  end.

Definition fsub (x y : fnum) : fnum := fadd x (fopp y).

Definition fmul (x y : fnum) : fnum :=
  match x, y with
  | NaN, _ | _, NaN => NaN
  | Fin a, Fin b => Fin (a * b)
  | Fin a, PInf | PInf, Fin a => by_sign a PInf NInf
  | Fin a, NInf | NInf, Fin a => by_sign a NInf PInf
  | PInf, PInf | NInf, NInf => PInf
  | PInf, NInf | NInf, PInf => NInf
  end.

Definition fdiv (x y : fnum) : fnum :=
  match x, y with
  | NaN, _ | _, NaN => NaN
  | Fin a, Fin b =>
      if Req_dec_T b 0 then by_sign a PInf NInf else Fin (a / b)
  | Fin _, (PInf | NInf) => Fin 0
  | PInf, Fin b => if Rlt_dec b 0 then NInf else PInf
  | NInf, Fin b => if Rlt_dec b 0 then PInf else NInf
  | (PInf | NInf), (PInf | NInf) => NaN
  end.

(** [x < y] of two doubles: false as soon as one side is [nan]. *)
Definition flt (x y : fnum) : bool :=
  match x, y with
  | NaN, _ | _, NaN => false
  | Fin a, Fin b => if Rlt_dec a b then true else false
  | NInf, NInf => false
  | NInf, _ => true
  | _, NInf => false
  | PInf, _ => false
  | Fin _, PInf => true
  end.

(** [jnp.sin] *)
Definition fsin (x : fnum) : fnum :=
  match x with
  | Fin a => Fin (sin a)
  | _ => NaN
  end.

(** [jnp.arcsin]: [nan] outside [-1, 1]. *)
Definition farcsin (x : fnum) : fnum :=
  match x with
  | Fin a => if Rle_dec (-1) a then if Rle_dec a 1 then Fin (asin a) else NaN
             else NaN
  | _ => NaN
  end.

(** [jnp.sqrt]: [nan] on a negative number. *)
Definition fsqrt (x : fnum) : fnum :=
  match x with
  | Fin a => if Rlt_dec a 0 then NaN else Fin (sqrt a)
  | PInf => PInf
  | NInf | NaN => NaN
  end.

(** [jnp.where] on scalars. *)
Definition fwhere (c : bool) (x y : fnum) : fnum := if c then x else y.

End Float.
Export Float.

Declare Scope fnum_scope.
Delimit Scope fnum_scope with fl.
Bind Scope fnum_scope with fnum.
Infix "+" := fadd : fnum_scope.
Infix "-" := fsub : fnum_scope.
Infix "*" := fmul : fnum_scope.
Infix "/" := fdiv : fnum_scope.

(* ===================================================================== *)
(** * Exceptions                                                          *)
(* ===================================================================== *)

Module Exn.

(** The Python exceptions the modelled code can raise. *)
Inductive exn : Type :=
| KeyError (key : string)   (* a dictionary has no such key *)
| IndexError                (* an index is out of range or one too many *)
| ShapeError                (* two arrays cannot be broadcast together *)
| ZeroDivisionError         (* Python's own division, by zero *)
| TypeError.                (* an argument is not a valid JAX type *)

Inductive result (A : Type) : Type :=
| Ok (a : A)
| Err (e : exn).
Arguments Ok {A} a.
Arguments Err {A} e.

Definition bind {A B : Type} (r : result A) (k : A -> result B) : result B :=
  match r with
  | Ok a => k a
  | Err e => Err e
  end.

Definition raises {A : Type} (r : result A) : Prop :=
  match r with Ok _ => False | Err _ => True end.

(** A list comprehension whose body can raise: elements are evaluated from
    left to right and the first exception ends the evaluation. *)
Fixpoint comprehension {A B : Type} (f : A -> result B) (l : list A)
  : result (list B) :=
  match l with
  | [] => Ok []
  | x :: l' =>
      bind (f x) (fun y =>
      bind (comprehension f l') (fun ys => Ok (y :: ys)))
  end.

End Exn.
Export Exn.

(** [result] is a monad; this gives it stdpp's [x ← r; k] notation. *)
Global Instance result_ret : MRet result := @Ok.
Global Instance result_bind : MBind result :=
  fun A B k r => bind r k.

(* ===================================================================== *)
(** * One-dimensional arrays                                              *)
(* ===================================================================== *)

Module Array.

Definition vec : Type := list fnum.

(** A binary operation of [jax.numpy] on two one-dimensional arrays: an
    array of length one is stretched to the length of the other one, two
    arrays of the same length are combined position by position, and any
    other pair of lengths raises. *)
Definition broadcast (f : fnum -> fnum -> fnum) (xs ys : vec) : result vec :=
  match xs, ys with
  | [x], _ => Ok (map (f x) ys)
  | _, [y] => Ok (map (fun x => f x y) xs)
  | _, _ =>
      if decide (length xs = length ys) then Ok (zip_with f xs ys)
      else Err ShapeError
  end.

Definition vadd : vec -> vec -> result vec := broadcast fadd.
Definition vsub : vec -> vec -> result vec := broadcast fsub.
Definition vmul : vec -> vec -> result vec := broadcast fmul.
Definition vdiv : vec -> vec -> result vec := broadcast fdiv.

(** An array and a Python scalar. *)
Definition vadds (xs : vec) (s : fnum) : vec := map (fun x => (x + s)%fl) xs.
Definition vsubs (xs : vec) (s : fnum) : vec := map (fun x => (x - s)%fl) xs.
Definition vmuls (xs : vec) (s : fnum) : vec := map (fun x => (x * s)%fl) xs.
Definition smulv (s : fnum) (xs : vec) : vec := map (fun x => (s * x)%fl) xs.

Definition vsin (xs : vec) : vec := map fsin xs.
Definition varcsin (xs : vec) : vec := map farcsin xs.

(** [v[0]] *)
Definition index0 (v : vec) : result fnum :=
  match v with
  | x :: _ => Ok x
  | [] => Err IndexError
  end.

(** A bounds table is a sequence of (lower, upper) pairs.
    [bounds = jnp.asarray(bounds); a, b = bounds[:, 0], bounds[:, 1]]:
    the two columns of the table.  An empty sequence becomes an array of
    shape (0,), which has no second axis to index. *)
Definition columns (bounds : list (fnum * fnum)) : result (vec * vec) :=
  match bounds with
  | [] => Err IndexError
  | _ => Ok (map fst bounds, map snd bounds)
  end.

End Array.
Export Array.

(* ===================================================================== *)
(** * neos.transforms                                                     *)
(* ===================================================================== *)

Module Transforms.

(** [def to_bounded(param, bounds)]:  [-inf, inf] -> [a, b].  The same
    operations on binary64 numbers are [to_bounded_double] below. *)
Definition to_bounded (param : fnum) (bounds : fnum * fnum) : fnum :=
  let '(a, b) := bounds in
  (a + (b - a) * Fin 0.5 * (fsin param + Fin 1.0))%fl.

(** [def to_inf(param, bounds)]:  [-inf, inf] <- [a, b], on [jax.numpy]
    values; on plain Python numbers it is [to_inf_python] below. *)
Definition to_inf (param : fnum) (bounds : fnum * fnum) : fnum :=
  let '(a, b) := bounds in
  let x := ((Fin 2.0 * param - a) / (b - a) - Fin 1.0)%fl in
  farcsin x.

(** [def to_bounded_vec(param, bounds)] *)
Definition to_bounded_vec (param : vec) (bounds : list (fnum * fnum))
  : result vec :=
  '(a, b) ← columns bounds;
  d ← vsub b a;
  t ← vmul (vmuls d (Fin 0.5)) (vadds (vsin param) (Fin 1.0));
  vadd a t.

(** [def to_inf_vec(param, bounds)] *)
Definition to_inf_vec (param : vec) (bounds : list (fnum * fnum))
  : result vec :=
  '(a, b) ← columns bounds;
  n ← vsub (smulv (Fin 2.0) param) a;
  d ← vsub b a;
  q ← vdiv n d;
  let x := vsubs q (Fin 1.0) in
  Ok (varcsin x).

(** The inverse transform as the documentation of the module gives it:
    [P_inf = arcsin (2 (P_bounded - a) / (b - a) - 1)]. *)
Definition to_inf_documented (y : fnum) (bounds : fnum * fnum) : fnum :=
  let '(a, b) := bounds in
  farcsin (Fin 2 * (y - a) / (b - a) - Fin 1)%fl.

(** [x / y] on two plain Python numbers: Python raises on a zero divisor
    where [jax.numpy] returns a special value. *)
Definition python_div (x y : fnum) : result fnum :=
  match y with
  | Fin r => if Req_dec_T r 0 then Err ZeroDivisionError else Ok (x / y)%fl
  | _ => Ok (x / y)%fl
  end.

(** [def to_inf(param, bounds)] when [param] and both bounds are plain
    Python numbers, not arrays: the arithmetic up to the argument of
    [jnp.arcsin] is Python's own.  ([to_inf] above is the same function on
    [jax.numpy] values, as the notebook and [to_inf_vec] use it;
    [to_bounded] has no division, so it is the same on both.) *)
Definition to_inf_python (param : fnum) (bounds : fnum * fnum)
  : result fnum :=
  let '(a, b) := bounds in
  q ← python_div (Fin 2.0 * param - a)%fl (b - a)%fl;
  let x := (q - Fin 1.0)%fl in
  Ok (farcsin x).

End Transforms.
Export Transforms.

(* ===================================================================== *)
(** * The arithmetic of [to_bounded] on binary64 numbers                  *)
(* ===================================================================== *)

Module Double.



End Double.
Export Double.

(* ===================================================================== *)
(** * The standard normal distribution                                    *)
(* ===================================================================== *)

Module Normal.

(** The density of the standard normal distribution. *)
Definition density (t : R) : R := exp (- (t * t) / 2) / sqrt (2 * PI).

Lemma density_continuous : continuity density.
Proof.
  intros x. unfold density.
  apply continuity_pt_mult
    with (f1 := fun t => exp (- (t * t) / 2)) (f2 := fun _ => / sqrt (2 * PI)).
  - apply (continuity_pt_comp (fun t => - (t * t) / 2) exp).
    + apply derivable_continuous_pt.
      apply derivable_pt_div.
      * apply derivable_pt_opp, derivable_pt_mult; apply derivable_pt_id.
      * apply derivable_pt_const.
      * unfold fct_cte. lra.
    + apply derivable_continuous_pt, derivable_pt_exp.
  - apply continuity_pt_const. intros a b. reflexivity.
Qed.

Definition density_integrable (a b : R) : Riemann_integrable density a b :=
  match Rle_dec a b with
  | left Hab =>
      continuity_implies_RiemannInt Hab (fun x _ => density_continuous x)
  | right Hba =>
      RiemannInt_P1
        (continuity_implies_RiemannInt
           (Rlt_le _ _ (Rnot_le_lt _ _ Hba))
           (fun x _ => density_continuous x))
  end.

(** Modelled from the spec: [Φ] is the standard normal CDF.  The code calls
    [pyhf.tensorlib.normal_cdf], a function of the pyhf library; here it is
    the integral of the density, taken from the median 0. *)
Definition Phi (x : R) : R := 1 / 2 + RiemannInt (density_integrable 0 x).

(** [pyhf.tensorlib.normal_cdf] on doubles. *)
Definition normal_cdf (x : fnum) : fnum :=
  match x with
  | Fin a => Fin (Phi a)
  | PInf => Fin 1
  | NInf => Fin 0
  | NaN => NaN
  end.

End Normal.
Export Normal.

(* ===================================================================== *)
(** * neos.infer                                                          *)
(* ===================================================================== *)

Module Infer.

(** The values a keyword argument of the solver can take, and Python's
    truth value of each. *)
Inductive pyval : Type :=
| PyNone
| PyBool (b : bool)
| PyInt (z : Z)
| PyStr (s : string).

Definition truthy (v : pyval) : bool :=
  match v with
  | PyNone => false
  | PyBool b => b
  | PyInt z => negb (Z.eqb z 0)
  | PyStr s => negb (String.eqb s EmptyString)
  end.

(** [d.get(key, default)] *)
Definition dict_get {V : Type} (d : gmap string V) (key : string) (dflt : V)
  : V :=
  match d !! key with
  | Some v => v
  | None => dflt
  end.

(** [d[key]] *)
Definition dict_item {V : Type} (d : gmap string V) (key : string)
  : result V :=
  match d !! key with
  | Some v => Ok v
  | None => Err (KeyError key)
  end.

Section ExpectedCLs.

(** The collaborators.  [Params] are the parameters of the observable,
    [Hyper] the hyperparameters of the model construction and [Data] what
    the model takes as data; the code only passes them on. *)
Variables Params Hyper Data : Type.

Record Config : Type := {
  suggested_bounds : list (fnum * fnum)
}.

(** What the code uses of a pyhf model. *)
Record Model : Type := {
  config : Config;
  expected_data : vec -> Data;
  logpdf : vec -> Data -> vec
}.

Definition maker : Type := Params * option Hyper -> Model * vec.

(** What [constrained_fit(model_maker, **solver_kwargs)] returns: called as
    [c_fitter(initval, [[params, hyperparams], test_mu])]. *)
Definition fitter : Type := vec -> Params * option Hyper -> fnum -> vec.

(** [neos.fit.constrained_fit] *)
Variable constrained_fit : maker -> gmap string pyval -> fitter.

(** The local variables of [get_expected_CLs] when it reaches its last
    two statements. *)
Record locals : Type := {
  l_m : Model;
  l_bonlypars : vec;
  l_exp_data : Data;
  l_bounds : list (fnum * fnum);
  l_transforms : bool;
  l_initval : vec;
  l_numerator : vec;
  l_denominator : vec;
  l_profile_likelihood : fnum;
  l_muhat : fnum;
  l_sqrtqmu : fnum;
  l_CLsb : fnum;
  l_altval : fnum;
  l_CLb : fnum;
  l_CLs : fnum
}.

Section Call.

(** The arguments of [expected_CLs] ... *)
Variable model_maker : maker.
Variable solver_kwargs : gmap string pyval.
(** ... and of [get_expected_CLs]. *)
Variable params : Params.
Variable test_mu : fnum.
Variable hyperparams : option Hyper.

(** [transforms = solver_kwargs.get("pdf_transform", False)], as the two
    conditionals read it. *)
Definition transforms_flag : bool :=
  truthy (dict_get solver_kwargs "pdf_transform" (PyBool false)).

(** The initial point handed to the fit. *)
Definition fit_initval (bounds : list (fnum * fnum)) : result vec :=
  let initval := [test_mu; Fin 1.0] in
  if transforms_flag then to_inf_vec initval bounds else Ok initval.

(** The constrained fit. *)
Definition fit_numerator (bounds : list (fnum * fnum)) (initval : vec)
  : result vec :=
  let c_fitter := constrained_fit model_maker solver_kwargs in
  if transforms_flag
  then to_bounded_vec (c_fitter initval (params, hyperparams) test_mu) bounds
  else Ok (c_fitter initval (params, hyperparams) test_mu).

(** The body of [get_expected_CLs] up to the computation of [CLs]. *)
Definition get_expected_CLs_locals : result locals :=
  let '(m, bonlypars) := model_maker (params, hyperparams) in
  let exp_data := expected_data m bonlypars in
  let bounds := suggested_bounds (config m) in
  initval ← fit_initval bounds;
  numerator ← fit_numerator bounds initval;
  let denominator := bonlypars in
  ln ← index0 (logpdf m numerator exp_data);
  ld ← index0 (logpdf m denominator exp_data);
  let profile_likelihood := (Fin (-2) * (ln - ld))%fl in
  muhat ← index0 denominator;
  let sqrtqmu :=
    fsqrt (fwhere (flt muhat test_mu) profile_likelihood (Fin 0.0)) in
  let CLsb := (Fin 1 - normal_cdf sqrtqmu)%fl in
  let altval := Fin 0 in
  let CLb := (Fin 1 - normal_cdf altval)%fl in
  let CLs := (CLsb / CLb)%fl in
  Ok {| l_m := m; l_bonlypars := bonlypars; l_exp_data := exp_data;
        l_bounds := bounds; l_transforms := transforms_flag;
        l_initval := initval; l_numerator := numerator;
        l_denominator := denominator;
        l_profile_likelihood := profile_likelihood; l_muhat := muhat;
        l_sqrtqmu := sqrtqmu; l_CLsb := CLsb; l_altval := altval;
        l_CLb := CLb; l_CLs := CLs |}.

(** [pdict = dict(CLs=CLs, p_sb=CLsb, p_b=CLb)] *)
Definition pdict (L : locals) : gmap string fnum :=
  <["p_b" := l_CLb L]> (<["p_sb" := l_CLsb L]> (<["CLs" := l_CLs L]> ∅)).

(** The function under the decorator:
    [def get_expected_CLs(params, test_mu, hyperparams=None,
    pvalues=["CLs"])], with its [pvalues] bound. *)
Definition get_expected_CLs_wrapped (pvalues : list string)
  : result (list fnum) :=
  L ← get_expected_CLs_locals;
  comprehension (dict_item (pdict L)) pvalues.

(** The default value of the argument [pvalues]. *)
Definition default_pvalues : list string := ["CLs"].

(** What [jax.jit] does with the argument [pvalues] of a call.  The
    decorator has no static argument, so it flattens every argument that
    is passed into arrays before the function runs, and a [str] is not a
    valid JAX type: a list holding one raises [TypeError].  An empty list
    has nothing to flatten, and a [pvalues] that is not passed ([None]
    here) is no argument of the call: the function binds its default.
    [params], [test_mu] and [hyperparams] are taken to hold numbers and
    arrays only. *)
Definition jit_pvalues (pvalues : option (list string))
  : result (list string) :=
  match pvalues with
  | None => Ok default_pvalues
  | Some [] => Ok []
  | Some (_ :: _) => Err TypeError
  end.

(** [@jax.jit def get_expected_CLs(...)], as a caller has it. *)
Definition get_expected_CLs (pvalues : option (list string))
  : result (list fnum) :=
  keys ← jit_pvalues pvalues;
  get_expected_CLs_wrapped keys.

End Call.

End ExpectedCLs.

Arguments config {Data} _.
Arguments expected_data {Data} _ _.
Arguments logpdf {Data} _ _ _.
Arguments Build_Model {Data} _ _ _.
Arguments get_expected_CLs_locals {Params Hyper Data} _ _ _ _ _ _.
Arguments get_expected_CLs_wrapped {Params Hyper Data} _ _ _ _ _ _ _.
Arguments get_expected_CLs {Params Hyper Data} _ _ _ _ _ _ _.
Arguments fit_numerator {Params Hyper Data} _ _ _ _ _ _ _ _.
Arguments pdict {Data} _.
Arguments l_m {Data} _.
Arguments l_bonlypars {Data} _.
Arguments l_exp_data {Data} _.
Arguments l_bounds {Data} _.
Arguments l_transforms {Data} _.
Arguments l_initval {Data} _.
Arguments l_numerator {Data} _.
Arguments l_denominator {Data} _.
Arguments l_profile_likelihood {Data} _.
Arguments l_muhat {Data} _.
Arguments l_sqrtqmu {Data} _.
Arguments l_CLsb {Data} _.
Arguments l_altval {Data} _.
Arguments l_CLb {Data} _.
Arguments l_CLs {Data} _.

(** The keys of [pdict]. *)
Definition recognised (key : string) : bool :=
  bool_decide (key = "CLs" ∨ key = "p_sb" ∨ key = "p_b").

End Infer.
Export Infer.

(* ===================================================================== *)
(** * Small collaborators for the examples                                *)
(* ===================================================================== *)

Module Toy.

(** Two parameters, each between 0 and 10: the bounds table of the
    notebook's tests. *)
Definition bounds : list (fnum * fnum) := [(Fin 0, Fin 10); (Fin 0, Fin 10)].

Definition first (v : vec) : fnum :=
  match v with
  | x :: _ => x
  | [] => NaN
  end.

(** A model whose data are its parameters and whose log-density is minus
    the squared distance of the first parameter to the first datum. *)
Definition square_model : Model vec := {|
  config := {| suggested_bounds := bounds |};
  expected_data := fun pars => pars;
  logpdf := fun pars data =>
    [fopp ((first pars - first data) * (first pars - first data))%fl]
|}.

(** A model whose log-density grows with the first parameter, whatever the
    data. *)
Definition linear_model : Model vec := {|
  config := {| suggested_bounds := bounds |};
  expected_data := fun pars => pars;
  logpdf := fun pars data => [first pars]
|}.

(** Model makers with the background-only point [0, 1]. *)
Definition square_maker : maker unit unit vec :=
  fun _ => (square_model, [Fin 0; Fin 1]).

Definition linear_maker : maker unit unit vec :=
  fun _ => (linear_model, [Fin 0; Fin 1]).

(** A fit that returns its initial point. *)
Definition still_fit : maker unit unit vec -> gmap string pyval ->
                       fitter unit unit :=
  fun _ _ initval _ _ => initval.

Definition second (v : vec) : fnum :=
  match v with
  | _ :: y :: _ => y
  | _ => NaN
  end.

(** A model whose log-density is minus the squared distance of the second
    parameter to the second datum. *)
Definition nuisance_model : Model vec := {|
  config := {| suggested_bounds := bounds |};
  expected_data := fun pars => pars;
  logpdf := fun pars data =>
    [fopp ((second pars - second data) * (second pars - second data))%fl]
|}.

Definition nuisance_maker : maker unit unit vec :=
  fun _ => (nuisance_model, [Fin 0; Fin 1]).

(** A fit that pins the first parameter and ends with the second at 2. *)
Definition drift_fit : maker unit unit vec -> gmap string pyval ->
                       fitter unit unit :=
  fun _ _ _ _ test_mu => [test_mu; Fin 2].

End Toy.

(* ===================================================================== *)
(** * Properties of the transforms                                        *)
(* ===================================================================== *)

(** The two equations of the error monad. *)
Lemma bind_Ok {A B : Type} (a : A) (k : A -> result B) : Ok a ≫= k = k a.
Proof. reflexivity. Qed.

Lemma bind_Err {A B : Type} (e : exn) (k : A -> result B) :
  Err e ≫= k = Err e.
Proof. reflexivity. Qed.

(** Decides the comparisons of real numbers that the operations on [fnum]
    branch on. *)
Ltac real_cases :=
  repeat match goal with
    | |- context [Rlt_dec ?a ?b] => destruct (Rlt_dec a b); try lra
    | |- context [Rle_dec ?a ?b] => destruct (Rle_dec a b); try lra
    | |- context [Req_dec_T ?a ?b] => destruct (Req_dec_T a b); try lra
    end.

Ltac float_eval :=
  cbn [to_bounded to_inf to_inf_documented fadd fsub fmul fdiv fopp fsin];
  unfold by_sign, farcsin, fsqrt, flt, fwhere;
  real_cases.

(** The decimal literals of the source. *)
Lemma literal_2 : 2.0 = 2.
Proof. lra. Qed.

Lemma literal_1 : 1.0 = 1.
Proof. lra. Qed.

Lemma literal_0 : 0.0 = 0.
Proof. lra. Qed.

Lemma literal_half : 0.5 = / 2.
Proof. lra. Qed.

Ltac literals := rewrite ?literal_2, ?literal_1, ?literal_0, ?literal_half.

(** Closes an equation between two finite numbers, possibly under the same
    function, by an equation of the field of real numbers. *)
Ltac same_real :=
  match goal with
  | |- Fin ?u = Fin ?v =>
      replace u with v by (literals; try lra; field; lra); reflexivity
  | |- ?g (Fin ?u) = ?g (Fin ?v) =>
      replace u with v by (literals; try lra; field; lra); reflexivity
  end.

Section TransformFacts.

Implicit Types (a b x y : R).

(** What [to_bounded] computes on finite arguments. *)
Lemma to_bounded_finite a b x :
  to_bounded (Fin x) (Fin a, Fin b) = Fin (a + (b - a) * 0.5 * (sin x + 1)).
Proof. float_eval. same_real. Qed.

(** What [to_inf] computes on finite arguments and distinct bounds. *)
Lemma to_inf_finite a b y :
  a <> b ->
  to_inf (Fin y) (Fin a, Fin b) = farcsin (Fin ((2 * y - a) / (b - a) - 1)).
Proof.
  intros Hab. cbn [to_inf fadd fsub fmul fdiv fopp].
  destruct (Req_dec_T (b + - a) 0) as [E|_]; [exfalso; lra|].
  cbn [fadd fsub fopp]. same_real.
Qed.

(** The documented inverse on finite arguments and distinct bounds. *)
Lemma to_inf_documented_finite a b y :
  a <> b ->
  to_inf_documented (Fin y) (Fin a, Fin b)
  = farcsin (Fin (2 * (y - a) / (b - a) - 1)).
Proof.
  intros Hab. cbn [to_inf_documented fadd fsub fmul fdiv fopp].
  destruct (Req_dec_T (b + - a) 0) as [E|_]; [exfalso; lra|].
  cbn [fadd fsub fopp]. same_real.
Qed.

(** With a lower bound of 0, as in every test of the notebook, the code and
    the documented formula agree. *)
Lemma to_inf_lower_zero b y :
  to_inf (Fin y) (Fin 0, Fin b) = to_inf_documented (Fin y) (Fin 0, Fin b).
Proof.
  cbn [to_inf to_inf_documented fadd fsub fmul fdiv fopp].
  literals. replace (2 * (y + - 0)) with (2 * y + - 0) by lra. reflexivity.
Qed.

(** [farcsin] of a finite argument inside [-1, 1]. *)
Lemma farcsin_inside x : -1 <= x <= 1 -> farcsin (Fin x) = Fin (asin x).
Proof. intros [? ?]. unfold farcsin. real_cases; reflexivity. Qed.

Lemma farcsin_above x : 1 < x -> farcsin (Fin x) = NaN.
Proof. intros ?. unfold farcsin. real_cases; reflexivity. Qed.

Lemma farcsin_below x : x < -1 -> farcsin (Fin x) = NaN.
Proof. intros ?. unfold farcsin. real_cases; reflexivity. Qed.

(** [asin] is injective on [-1, 1]. *)
Lemma asin_inj x y : -1 <= x <= 1 -> -1 <= y <= 1 -> asin x = asin y -> x = y.
Proof.
  intros Hx Hy E. rewrite <- (sin_asin x Hx), <- (sin_asin y Hy).
  now rewrite E.
Qed.

(** [asin] of a positive argument is larger than that argument. *)
Lemma asin_gt x : 0 < x <= 1 -> x < asin x.
Proof.
  intros [Hpos Hle].
  assert (Hb : - (PI / 2) <= asin x <= PI / 2) by (apply asin_bound).
  assert (Hs : sin (asin x) = x) by (apply sin_asin; lra).
  destruct (Rle_dec (asin x) 0) as [Hneg|Hneg].
  - assert (0 <= sin (- asin x)).
    { apply sin_ge_0; [lra|]. pose proof PI_RGT_0. lra. }
    rewrite sin_neg in H. lra.
  - assert (sin (asin x) < asin x) by (apply sin_lt_x; lra). lra.
Qed.

End TransformFacts.

Section Broadcast.

Variable f : fnum -> fnum -> fnum.

(** Two arrays of one length are combined position by position. *)
Lemma broadcast_same_length (xs ys : vec) :
  length xs = length ys -> broadcast f xs ys = Ok (zip_with f xs ys).
Proof.
  intros Hlen. unfold broadcast.
  destruct xs as [|x [|x' xs]], ys as [|y [|y' ys]];
    try discriminate Hlen; try reflexivity.
  rewrite decide_True by exact Hlen. reflexivity.
Qed.

(** Other lengths raise, unless one of them is 1. *)
Lemma broadcast_mismatch (xs ys : vec) :
  length xs <> length ys -> length xs <> 1%nat -> length ys <> 1%nat ->
  broadcast f xs ys = Err ShapeError.
Proof.
  intros Hne Hx Hy. unfold broadcast.
  destruct xs as [|x [|x' xs]], ys as [|y [|y' ys]];
    try (exfalso; cbn in *; congruence);
    rewrite decide_False by exact Hne; reflexivity.
Qed.

End Broadcast.

Section Vectorised.

Implicit Types (param : vec) (bounds : list (fnum * fnum)).

(** [to_bounded_vec] applies [to_bounded] to each component with the
    matching row of the bounds table. *)
Lemma to_bounded_vec_pointwise param bounds :
  bounds <> [] -> length param = length bounds ->
  to_bounded_vec param bounds = Ok (zip_with to_bounded param bounds).
Proof.
  intros Hne Hlen. unfold to_bounded_vec, columns.
  destruct bounds as [|bd bounds]; [congruence|]. clear Hne.
  rewrite bind_Ok. unfold vsub, vmul, vadd, vmuls, vadds, vsin.
  rewrite broadcast_same_length, bind_Ok by (now rewrite !length_map).
  rewrite broadcast_same_length, bind_Ok
    by (rewrite !length_map, length_zip_with, !length_map; lia).
  rewrite broadcast_same_length
    by (rewrite length_zip_with, !length_map, length_zip_with,
          !length_map; lia).
  f_equal. revert Hlen. generalize (bd :: bounds). clear bd bounds.
  induction param as [|p param IH]; intros [|[a b] bounds] Hlen;
    try discriminate Hlen; [reflexivity|].
  cbn [map zip_with fst snd to_bounded]. f_equal.
  apply IH. now injection Hlen.
Qed.

(** [to_inf_vec] applies [to_inf] to each component with the matching row
    of the bounds table. *)
Lemma to_inf_vec_pointwise param bounds :
  bounds <> [] -> length param = length bounds ->
  to_inf_vec param bounds = Ok (zip_with to_inf param bounds).
Proof.
  intros Hne Hlen. unfold to_inf_vec, columns.
  destruct bounds as [|bd bounds]; [congruence|]. clear Hne.
  rewrite bind_Ok. unfold vsub, vdiv, vsubs, smulv, varcsin.
  rewrite (broadcast_same_length fsub (map _ param)), bind_Ok
    by (now rewrite !length_map).
  rewrite broadcast_same_length, bind_Ok by (now rewrite !length_map).
  rewrite broadcast_same_length, bind_Ok
    by (rewrite !length_zip_with, !length_map; lia).
  f_equal. revert Hlen. generalize (bd :: bounds).
  clear bd bounds.
  induction param as [|p param IH]; intros [|[a b] bounds] Hlen;
    try discriminate Hlen; [reflexivity|].
  cbn [map zip_with fst snd to_inf]. f_equal.
  apply IH. now injection Hlen.
Qed.

End Vectorised.

Section RoundTrip.

Implicit Types (a b x y : R).

(** What the composition of the two transforms computes: the sine of the
    input, shifted by [a / (b - a)], goes into [arcsin]. *)
Lemma to_inf_to_bounded a b x :
  a <> b ->
  to_inf (to_bounded (Fin x) (Fin a, Fin b)) (Fin a, Fin b)
  = farcsin (Fin (sin x + a / (b - a))).
Proof.
  intros Hab. rewrite to_bounded_finite, to_inf_finite by exact Hab.
  same_real.
Qed.

(** In the other direction the result is shifted by [a / 2]. *)
Lemma to_bounded_to_inf a b y :
  a <> b -> -1 <= (2 * y - a) / (b - a) - 1 <= 1 ->
  to_bounded (to_inf (Fin y) (Fin a, Fin b)) (Fin a, Fin b) = Fin (y + a / 2).
Proof.
  intros Hab Harg. rewrite to_inf_finite, farcsin_inside by assumption.
  rewrite to_bounded_finite, sin_asin by exact Harg. same_real.
Qed.

(** With a lower bound of 0 the two transforms are inverse to each other
    on the principal branch. *)
Lemma round_trip_lower_zero b x :
  0 < b -> - (PI / 2) <= x <= PI / 2 ->
  to_inf (to_bounded (Fin x) (Fin 0, Fin b)) (Fin 0, Fin b) = Fin x.
Proof.
  intros Hb Hx. rewrite to_inf_to_bounded by lra.
  replace (sin x + 0 / (b - 0)) with (sin x) by (field; lra).
  rewrite farcsin_inside by apply SIN_bound.
  now rewrite asin_sin.
Qed.

(** [to_inf] on plain Python numbers: the value of [to_inf] when the
    bounds differ, Python's exception when they are equal. *)
Lemma to_inf_python_distinct a b y :
  a <> b ->
  to_inf_python (Fin y) (Fin a, Fin b) = Ok (to_inf (Fin y) (Fin a, Fin b)).
Proof.
  intros Hab. unfold to_inf_python, to_inf, python_div.
  cbn [fsub fadd fopp].
  destruct (Req_dec_T (b + - a) 0) as [E|_]; [exfalso; lra|].
  now rewrite bind_Ok.
Qed.

Lemma to_inf_python_equal a y :
  to_inf_python (Fin y) (Fin a, Fin a) = Err ZeroDivisionError.
Proof.
  unfold to_inf_python, python_div. cbn [fsub fadd fopp].
  destruct (Req_dec_T (a + - a) 0) as [_|E]; [reflexivity | exfalso; lra].
Qed.

End RoundTrip.

(* ===================================================================== *)
(** * The claims on the transforms                                        *)
(* ===================================================================== *)




(** C1.  The code of [to_inf] at y = 1 with the bounds (1, 3), and at
    y = 3 with the same bounds: it takes the arcsin of
    (2 y - a) / (b - a) - 1, which is -1/2 where the documented
    2 (y - a) / (b - a) - 1 is -1, and 3/2, outside [-1, 1], at the upper
    bound; [to_inf_vec] does the same on each component. *)
Theorem to_inf_off_documented_formula :
  to_inf (Fin 1) (Fin 1, Fin 3) = Fin (asin (-1 / 2))
  /\ to_inf_documented (Fin 1) (Fin 1, Fin 3) = Fin (asin (-1))
  /\ to_inf (Fin 1) (Fin 1, Fin 3) <> to_inf_documented (Fin 1) (Fin 1, Fin 3)
  /\ to_inf (Fin 3) (Fin 1, Fin 3) = NaN
  /\ to_inf_vec [Fin 1; Fin 3] [(Fin 1, Fin 3); (Fin 1, Fin 3)]
     = Ok [Fin (asin (-1 / 2)); NaN].
Proof.
  assert (E1 : to_inf (Fin 1) (Fin 1, Fin 3) = Fin (asin (-1 / 2))).
  { rewrite to_inf_finite by lra.
    replace ((2 * 1 - 1) / (3 - 1) - 1) with (-1 / 2) by lra.
    apply farcsin_inside. lra. }
  assert (E2 : to_inf_documented (Fin 1) (Fin 1, Fin 3) = Fin (asin (-1))).
  { rewrite to_inf_documented_finite by lra.
    replace (2 * (1 - 1) / (3 - 1) - 1) with (-1) by lra.
    apply farcsin_inside. lra. }
  assert (E3 : to_inf (Fin 3) (Fin 1, Fin 3) = NaN).
  { rewrite to_inf_finite by lra. apply farcsin_above. lra. }
  repeat split; try assumption.
  - rewrite E1, E2. intros E. injection E as E.
    apply asin_inj in E; lra.
  - rewrite to_inf_vec_pointwise by (cbn; congruence).
    cbn [zip_with]. now rewrite E1, E3.
Qed.

(** C2.  The round trip of the code at the bounds (1, 3): the vector [0]
    comes back as [arcsin (1/2)], more than 1/2 away from 0, and the
    interior point y = 2 comes back as 5/2. *)
Theorem round_trip_off_with_nonzero_lower :
  (to_bounded_vec [Fin 0] [(Fin 1, Fin 3)]
     ≫= fun y => to_inf_vec y [(Fin 1, Fin 3)])
  = Ok [Fin (asin (1 / 2))]
  /\ 1 / 2 < Rabs (asin (1 / 2) - 0)
  /\ to_bounded (to_inf (Fin 2) (Fin 1, Fin 3)) (Fin 1, Fin 3) = Fin (5 / 2)
  /\ 1 / 2 <= Rabs (5 / 2 - 2).
Proof.
  repeat split.
  - rewrite to_bounded_vec_pointwise by (cbn; congruence).
    rewrite bind_Ok, to_inf_vec_pointwise
      by (cbn; congruence).
    cbn [zip_with]. rewrite to_inf_to_bounded by lra.
    rewrite sin_0. replace (0 + 1 / (3 - 1)) with (1 / 2) by lra.
    rewrite farcsin_inside by lra. reflexivity.
  - pose proof (asin_gt (1 / 2)) as Hgt.
    rewrite Rabs_pos_eq; lra.
  - rewrite to_bounded_to_inf by lra. same_real.
  - rewrite Rabs_pos_eq; lra.
Qed.

(** C8, as the code has it.  The transforms raise nothing on the bound
    pair (3, 1), whose lower bound is above the upper one: they return
    values, on [jax.numpy] values and on plain Python numbers alike; and
    [to_bounded] returns a value on the pair (1, 1). *)
Lemma degenerate_bounds_accepted :
  to_bounded (Fin 0) (Fin 3, Fin 1) = Fin 2
  /\ to_inf (Fin 1) (Fin 3, Fin 1) = Fin (asin (-1 / 2))
  /\ to_inf_python (Fin 1) (Fin 3, Fin 1) = Ok (Fin (asin (-1 / 2)))
  /\ to_bounded_vec [Fin 0] [(Fin 3, Fin 1)] = Ok [Fin 2]
  /\ to_inf_vec [Fin 1] [(Fin 3, Fin 1)] = Ok [Fin (asin (-1 / 2))]
  /\ ~ raises (to_inf_python (Fin 1) (Fin 3, Fin 1))
  /\ ~ raises (to_bounded_vec [Fin 0] [(Fin 3, Fin 1)])
  /\ ~ raises (to_inf_vec [Fin 1] [(Fin 3, Fin 1)])
  /\ to_bounded (Fin 0) (Fin 1, Fin 1) = Fin 1.
Proof.
  assert (E1 : to_bounded (Fin 0) (Fin 3, Fin 1) = Fin 2).
  { rewrite to_bounded_finite, sin_0. same_real. }
  assert (E2 : to_inf (Fin 1) (Fin 3, Fin 1) = Fin (asin (-1 / 2))).
  { rewrite to_inf_finite by lra.
    replace ((2 * 1 - 3) / (1 - 3) - 1) with (-1 / 2) by lra.
    apply farcsin_inside. lra. }
  assert (V1 : to_bounded_vec [Fin 0] [(Fin 3, Fin 1)] = Ok [Fin 2]).
  { rewrite to_bounded_vec_pointwise by (cbn; congruence).
    cbn [zip_with]. now rewrite E1. }
  assert (V2 : to_inf_vec [Fin 1] [(Fin 3, Fin 1)]
               = Ok [Fin (asin (-1 / 2))]).
  { rewrite to_inf_vec_pointwise by (cbn; congruence).
    cbn [zip_with]. now rewrite E2. }
  assert (P : to_inf_python (Fin 1) (Fin 3, Fin 1)
              = Ok (Fin (asin (-1 / 2)))).
  { rewrite to_inf_python_distinct by lra. now rewrite E2. }
  split; [exact E1|]. split; [exact E2|]. split; [exact P|].
  split; [exact V1|]. split; [exact V2|].
  split; [rewrite P; cbn; tauto|].
  split; [rewrite V1; cbn; tauto|].
  split; [rewrite V2; cbn; tauto|].
  rewrite to_bounded_finite, sin_0. same_real.
Qed.

(** C8, amended.  No transform checks its bounds.  For a bound pair with
    lower > upper every transform returns the value of its formula:
    [to_bounded] and [to_bounded_vec] a + (b - a) * 0.5 * (sin x + 1),
    [to_inf] and [to_inf_vec] the arcsin of (2 x - a) / (b - a) - 1.  For
    lower = upper, [to_bounded] and [to_bounded_vec] return that bound,
    [to_inf_vec] and [to_inf] on [jax.numpy] values return nan, and
    [to_inf] on plain Python numbers raises the [ZeroDivisionError] of
    Python's division. *)
Theorem degenerate_bounds_values (a b x : R) :
  b <= a ->
  to_bounded (Fin x) (Fin a, Fin b)
  = Fin (a + (b - a) * 0.5 * (sin x + 1))
  /\ to_bounded_vec [Fin x] [(Fin a, Fin b)]
     = Ok [Fin (a + (b - a) * 0.5 * (sin x + 1))]
  /\ to_inf_vec [Fin x] [(Fin a, Fin b)] = Ok [to_inf (Fin x) (Fin a, Fin b)]
  /\ (b < a ->
      to_inf (Fin x) (Fin a, Fin b)
      = farcsin (Fin ((2 * x - a) / (b - a) - 1))
      /\ to_inf_python (Fin x) (Fin a, Fin b)
         = Ok (farcsin (Fin ((2 * x - a) / (b - a) - 1))))
  /\ (b = a ->
      to_bounded (Fin x) (Fin a, Fin b) = Fin a
      /\ to_bounded_vec [Fin x] [(Fin a, Fin b)] = Ok [Fin a]
      /\ to_inf (Fin x) (Fin a, Fin b) = NaN
      /\ to_inf_vec [Fin x] [(Fin a, Fin b)] = Ok [NaN]
      /\ to_inf_python (Fin x) (Fin a, Fin b) = Err ZeroDivisionError).
Proof.
  intros Hba.
  assert (E : to_bounded (Fin x) (Fin a, Fin b)
              = Fin (a + (b - a) * 0.5 * (sin x + 1)))
    by apply to_bounded_finite.
  assert (V : to_bounded_vec [Fin x] [(Fin a, Fin b)]
              = Ok [Fin (a + (b - a) * 0.5 * (sin x + 1))]).
  { rewrite to_bounded_vec_pointwise by (cbn; congruence).
    cbn [zip_with]. now rewrite E. }
  assert (W : to_inf_vec [Fin x] [(Fin a, Fin b)]
              = Ok [to_inf (Fin x) (Fin a, Fin b)])
    by (now rewrite to_inf_vec_pointwise by (cbn; congruence)).
  split; [exact E|]. split; [exact V|]. split; [exact W|]. split.
  - intros Hlt. split; [apply to_inf_finite; lra|].
    rewrite to_inf_python_distinct by lra. f_equal.
    apply to_inf_finite. lra.
  - intros ->.
    assert (N : to_inf (Fin x) (Fin a, Fin a) = NaN)
      by (float_eval; reflexivity).
    split; [rewrite E; same_real|].
    split; [rewrite V; do 2 f_equal; same_real|].
    split; [exact N|]. split; [now rewrite W, N|].
    apply to_inf_python_equal.
Qed.

Lemma degenerate_bounds_values_witness :
  1 <= 3
  /\ to_bounded (Fin 0) (Fin 3, Fin 1)
     = Fin (3 + (1 - 3) * 0.5 * (sin 0 + 1))
  /\ to_inf_python (Fin 1) (Fin 1, Fin 1) = Err ZeroDivisionError.
Proof.
  split; [lra|]. split.
  - exact (proj1 (degenerate_bounds_values 3 1 0 ltac:(lra))).
  - destruct (degenerate_bounds_values 1 1 1 ltac:(lra))
      as (_ & _ & _ & _ & Heq).
    exact (proj2 (proj2 (proj2 (proj2 (Heq eq_refl))))).
Defined.

(* ===================================================================== *)
(** * Properties of [get_expected_CLs]                                    *)
(* ===================================================================== *)

Lemma Phi_0 : Phi 0 = 1 / 2.
Proof. unfold Phi. rewrite RiemannInt_P9. lra. Qed.

Lemma normal_cdf_0 : normal_cdf (Fin 0) = Fin (1 / 2).
Proof. cbn [normal_cdf]. now rewrite Phi_0. Qed.

Lemma one_minus_half : (Fin 1 - Fin (1 / 2))%fl = Fin (1 / 2).
Proof. cbn [fsub fadd fopp]. same_real. Qed.

Lemma fsqrt_0 : fsqrt (Fin 0.0) = Fin 0.
Proof.
  unfold fsqrt. rewrite literal_0. real_cases; now rewrite sqrt_0.
Qed.

Lemma fsqrt_nonneg (r : R) : 0 <= r -> fsqrt (Fin r) = Fin (sqrt r).
Proof. intros ?. unfold fsqrt. real_cases; reflexivity. Qed.

Lemma fsqrt_negative (r : R) : r < 0 -> fsqrt (Fin r) = NaN.
Proof. intros ?. unfold fsqrt. real_cases; reflexivity. Qed.

(** [x < y] is false for finite [y <= x]. *)
Lemma flt_ge (x y : R) : y <= x -> flt (Fin x) (Fin y) = false.
Proof. intros ?. unfold flt. real_cases; reflexivity. Qed.

Lemma flt_lt (x y : R) : x < y -> flt (Fin x) (Fin y) = true.
Proof. intros ?. unfold flt. real_cases; reflexivity. Qed.

Section Body.

Variables Params Hyper Data : Type.
Variable constrained_fit :
  maker Params Hyper Data -> gmap string pyval -> fitter Params Hyper.
Variable model_maker : maker Params Hyper Data.
Variable solver_kwargs : gmap string pyval.
Variable params : Params.
Variable test_mu : fnum.
Variable hyperparams : option Hyper.

Let body :=
  get_expected_CLs_locals constrained_fit model_maker solver_kwargs
    params test_mu hyperparams.

(** What the local variables are when the body does not raise: one
    equation per assignment of the source. *)
Record assigned (L : locals Data) : Prop := {
  a_model : model_maker (params, hyperparams) = (l_m L, l_bonlypars L);
  a_exp_data : l_exp_data L = expected_data (l_m L) (l_bonlypars L);
  a_bounds : l_bounds L = suggested_bounds (config (l_m L));
  a_transforms : l_transforms L = transforms_flag solver_kwargs;
  a_initval : fit_initval solver_kwargs test_mu (l_bounds L)
              = Ok (l_initval L);
  a_numerator : fit_numerator constrained_fit model_maker solver_kwargs
                  params test_mu hyperparams (l_bounds L) (l_initval L)
                = Ok (l_numerator L);
  a_denominator : l_denominator L = l_bonlypars L;
  a_profile_likelihood : exists ln ld,
      index0 (logpdf (l_m L) (l_numerator L) (l_exp_data L)) = Ok ln
      /\ index0 (logpdf (l_m L) (l_denominator L) (l_exp_data L)) = Ok ld
      /\ l_profile_likelihood L = (Fin (-2) * (ln - ld))%fl;
  a_muhat : index0 (l_denominator L) = Ok (l_muhat L);
  a_sqrtqmu : l_sqrtqmu L
              = fsqrt (fwhere (flt (l_muhat L) test_mu)
                         (l_profile_likelihood L) (Fin 0.0));
  a_CLsb : l_CLsb L = (Fin 1 - normal_cdf (l_sqrtqmu L))%fl;
  a_altval : l_altval L = Fin 0;
  a_CLb : l_CLb L = (Fin 1 - normal_cdf (l_altval L))%fl;
  a_CLs : l_CLs L = (l_CLsb L / l_CLb L)%fl
}.

Lemma body_assigned (L : locals Data) : body = Ok L -> assigned L.
Proof.
  unfold body, get_expected_CLs_locals.
  destruct (model_maker (params, hyperparams)) as [m bonlypars] eqn:Em.
  destruct (fit_initval _ _ _) as [initval|e] eqn:Ei;
    [rewrite bind_Ok | discriminate].
  destruct (fit_numerator _ _ _ _ _ _ _ _) as [numerator|e] eqn:En;
    [rewrite bind_Ok | discriminate].
  destruct (index0 (logpdf m numerator _)) as [ln|e] eqn:Eln;
    [rewrite bind_Ok | discriminate].
  destruct (index0 (logpdf m bonlypars _)) as [ld|e] eqn:Eld;
    [rewrite bind_Ok | discriminate].
  destruct (index0 bonlypars) as [muhat|e] eqn:Emu;
    [rewrite bind_Ok | discriminate].
  intros [= <-]. constructor; cbn; try reflexivity; try assumption.
  exists ln, ld. auto.
Qed.

(** The body raises only where an array has no first element or a transform
    raises. *)
Lemma body_succeeds (m : Model Data) (bonlypars initval numerator : vec) :
  model_maker (params, hyperparams) = (m, bonlypars) ->
  fit_initval solver_kwargs test_mu (suggested_bounds (config m))
  = Ok initval ->
  fit_numerator constrained_fit model_maker solver_kwargs params test_mu
    hyperparams (suggested_bounds (config m)) initval = Ok numerator ->
  logpdf m numerator (expected_data m bonlypars) <> [] ->
  logpdf m bonlypars (expected_data m bonlypars) <> [] ->
  bonlypars <> [] ->
  exists L, body = Ok L.
Proof.
  intros Em Ei En Hn Hd Hb. unfold body, get_expected_CLs_locals.
  rewrite Em, Ei, bind_Ok, En, bind_Ok.
  destruct (logpdf m numerator _) as [|ln ?]; [congruence|].
  destruct (logpdf m bonlypars _) as [|ld ?]; [congruence|].
  destruct bonlypars as [|muhat ?]; [congruence|].
  cbn [index0]. rewrite !bind_Ok. eexists. reflexivity.
Qed.

(** [CLb] is one half. *)
Lemma assigned_CLb (L : locals Data) : assigned L -> l_CLb L = Fin (1 / 2).
Proof.
  intros A. rewrite (a_CLb L A), (a_altval L A), normal_cdf_0.
  apply one_minus_half.
Qed.

(** The keys of [pdict]. *)
Lemma pdict_lookup (L : locals Data) (key : string) :
  pdict L !! key =
  if decide (key = "p_b") then Some (l_CLb L)
  else if decide (key = "p_sb") then Some (l_CLsb L)
  else if decide (key = "CLs") then Some (l_CLs L)
  else None.
Proof.
  unfold pdict. repeat case_decide; subst; simplify_map_eq; reflexivity.
Qed.

Lemma pdict_recognised (L : locals Data) (key : string) :
  recognised key = true <-> is_Some (pdict L !! key).
Proof.
  unfold recognised. rewrite bool_decide_eq_true, pdict_lookup.
  repeat case_decide; subst; split;
    try (intros [? [=]]); eauto; try tauto.
Qed.

End Body.

Section Comprehension.

Context {V : Type}.
Implicit Types (d : gmap string V) (keys : list string).

(** With every key present, the comprehension returns the values of the
    keys, in the order of the keys. *)
Lemma comprehension_all_present d keys :
  Forall (fun k => is_Some (d !! k)) keys ->
  exists out,
    comprehension (dict_item d) keys = Ok out
    /\ length out = length keys
    /\ forall (i : nat) (k : string), keys !! i = Some k -> out !! i = d !! k.
Proof.
  induction 1 as [|k keys [v Hv] _ (out & E & Hlen & Hnth)].
  - exists []. split; [reflexivity|]. split; [reflexivity|].
    intros i k Hk. now destruct i.
  - exists (v :: out). cbn [comprehension]. unfold dict_item at 1.
    rewrite Hv, E. split; [reflexivity|]. split.
    + cbn. now rewrite Hlen.
    + intros [|i] k' Hk'; cbn in *; [congruence | auto].
Qed.

(** With a key missing, the comprehension raises [KeyError] on the first
    missing key. *)
Lemma comprehension_first_missing d keys :
  Exists (fun k => d !! k = None) keys ->
  exists before k after,
    keys = before ++ k :: after
    /\ Forall (fun k' => is_Some (d !! k')) before
    /\ d !! k = None
    /\ comprehension (dict_item d) keys = Err (KeyError k).
Proof.
  induction keys as [|k keys IH]; intros Hex; [inversion Hex|].
  destruct (d !! k) as [v|] eqn:Ek.
  - destruct IH as (before & k' & after & -> & Hb & Hk' & E).
    { inversion Hex; subst; [congruence | assumption]. }
    exists (k :: before), k', after.
    split; [reflexivity|]. split; [constructor; eauto|].
    split; [exact Hk'|].
    cbn [comprehension app]. unfold dict_item at 1. now rewrite Ek, E.
  - exists [], k, keys.
    split; [reflexivity|]. split; [constructor|]. split; [exact Ek|].
    cbn [comprehension]. unfold dict_item at 1. now rewrite Ek.
Qed.

End Comprehension.

(* ===================================================================== *)
(** * The claims on [get_expected_CLs]                                    *)
(* ===================================================================== *)

Section InferenceClaims.

Variables Params Hyper Data : Type.
Variable constrained_fit :
  maker Params Hyper Data -> gmap string pyval -> fitter Params Hyper.
Variable model_maker : maker Params Hyper Data.
Variable solver_kwargs : gmap string pyval.
Variable params : Params.
Variable test_mu : fnum.
Variable hyperparams : option Hyper.

Let body :=
  get_expected_CLs_locals constrained_fit model_maker solver_kwargs
    params test_mu hyperparams.

Let wrapped :=
  get_expected_CLs_wrapped constrained_fit model_maker solver_kwargs
    params test_mu hyperparams.

Let call :=
  get_expected_CLs constrained_fit model_maker solver_kwargs
    params test_mu hyperparams.

Let c_fitter := constrained_fit model_maker solver_kwargs.

(** C3, amended.  [sqrtqmu] is the square root of the effective test
    statistic, with no clamp: it is 0 when [muhat < test_mu] is false, the
    non-negative real [sqrt q] when [muhat < test_mu] and the
    profile-likelihood statistic [q] is a non-negative real, and nan when
    [muhat < test_mu] and [q] is negative. *)
Theorem sqrtqmu_without_clamp (L : locals Data) :
  body = Ok L ->
  l_sqrtqmu L
  = fsqrt (fwhere (flt (l_muhat L) test_mu) (l_profile_likelihood L)
             (Fin 0.0))
  /\ (flt (l_muhat L) test_mu = false -> l_sqrtqmu L = Fin 0)
  /\ (forall q : R,
        flt (l_muhat L) test_mu = true -> l_profile_likelihood L = Fin q ->
        0 <= q -> l_sqrtqmu L = Fin (sqrt q) /\ 0 <= sqrt q)
  /\ (forall q : R,
        flt (l_muhat L) test_mu = true -> l_profile_likelihood L = Fin q ->
        q < 0 -> l_sqrtqmu L = NaN).
Proof.
  intros HL. apply body_assigned in HL.
  destruct HL as [_ _ _ _ _ _ _ _ _ E _ _ _ _].
  split; [exact E|]. split; [|split].
  - intros Hlt. rewrite E, Hlt. apply fsqrt_0.
  - intros q Hlt Hq Hpos. rewrite E, Hlt, Hq. cbn [fwhere].
    split; [now apply fsqrt_nonneg | apply sqrt_pos].
  - intros q Hlt Hq Hneg. rewrite E, Hlt, Hq. now apply fsqrt_negative.
Qed.

(** C4.  [muhat] is [denominator[0]], the first component of the
    background-only point, and the statistic is
    q = -2 * (logpdf(numerator, exp_data)[0] - logpdf(denominator,
    exp_data)[0]).  When [muhat] is not below [test_mu], in particular when
    muhat >= test_mu, equality included, the statistic is zeroed by the
    selection, whatever q is: [sqrtqmu] is 0 and [CLsb] is one half.  When
    [muhat < test_mu], q is used as it is: [sqrtqmu] is its square root and
    [CLsb] is 1 - Φ of that root. *)
Theorem exclusion_zeroing (L : locals Data) :
  body = Ok L ->
  exists (m : Model Data) (bonlypars : vec) (ln ld muhat : fnum),
    model_maker (params, hyperparams) = (m, bonlypars)
    /\ fit_initval solver_kwargs test_mu (suggested_bounds (config m))
       = Ok (l_initval L)
    /\ fit_numerator constrained_fit model_maker solver_kwargs params
         test_mu hyperparams (suggested_bounds (config m)) (l_initval L)
       = Ok (l_numerator L)
    /\ index0 (logpdf m (l_numerator L) (expected_data m bonlypars)) = Ok ln
    /\ index0 (logpdf m bonlypars (expected_data m bonlypars)) = Ok ld
    /\ index0 bonlypars = Ok muhat
    /\ l_muhat L = muhat
    /\ l_profile_likelihood L = (Fin (-2) * (ln - ld))%fl
    /\ (flt muhat test_mu = false ->
        l_sqrtqmu L = Fin 0 /\ l_CLsb L = Fin (1 / 2))
    /\ (forall mh mu : R,
          muhat = Fin mh -> test_mu = Fin mu -> mu <= mh ->
          l_sqrtqmu L = Fin 0 /\ l_CLsb L = Fin (1 / 2))
    /\ (flt muhat test_mu = true ->
        l_sqrtqmu L = fsqrt (Fin (-2) * (ln - ld))%fl
        /\ l_CLsb L
           = (Fin 1 - normal_cdf (fsqrt (Fin (-2) * (ln - ld))))%fl).
Proof.
  intros HL. apply body_assigned in HL.
  destruct HL as [Hm He Hb _ Hi Hn Hd (ln & ld & Hln & Hld & Hq) Hmu Hsq Hsb
                    _ _ _].
  rewrite Hd in Hld, Hmu. rewrite He in Hln, Hld. rewrite Hb in Hi, Hn.
  exists (l_m L), (l_bonlypars L), ln, ld, (l_muhat L).
  assert (Z : flt (l_muhat L) test_mu = false ->
              l_sqrtqmu L = Fin 0 /\ l_CLsb L = Fin (1 / 2)).
  { intros Hlt. assert (S0 : l_sqrtqmu L = Fin 0).
    { rewrite Hsq, Hlt. apply fsqrt_0. }
    split; [exact S0|].
    rewrite Hsb, S0, normal_cdf_0. apply one_minus_half. }
  split; [exact Hm|]. split; [exact Hi|]. split; [exact Hn|].
  split; [exact Hln|]. split; [exact Hld|]. split; [exact Hmu|].
  split; [reflexivity|]. split; [exact Hq|]. split; [exact Z|]. split.
  - intros mh mu Emuhat Emu Hle. apply Z.
    rewrite Emuhat, Emu. now apply flt_ge.
  - intros Hlt.
    assert (S1 : l_sqrtqmu L = fsqrt (Fin (-2) * (ln - ld))%fl)
      by (now rewrite Hsq, Hlt, Hq).
    split; [exact S1|]. now rewrite Hsb, S1.
Qed.

(** C5.  The denominator of the test statistic is the background-only
    point that the model maker returns, whatever the fit does; the
    expected data are generated under that point; and the
    profile-likelihood statistic is
    -2 * (logpdf(numerator, exp_data)[0] - logpdf(denominator, exp_data)[0]). *)
Theorem denominator_is_bonlypars (L : locals Data) :
  body = Ok L ->
  model_maker (params, hyperparams) = (l_m L, l_bonlypars L)
  /\ l_denominator L = l_bonlypars L
  /\ l_exp_data L = expected_data (l_m L) (l_bonlypars L)
  /\ (exists ln ld : fnum,
        index0 (logpdf (l_m L) (l_numerator L) (l_exp_data L)) = Ok ln
        /\ index0 (logpdf (l_m L) (l_denominator L) (l_exp_data L)) = Ok ld
        /\ l_profile_likelihood L = (Fin (-2) * (ln - ld))%fl)
  /\ (forall other_fit (L' : locals Data),
        get_expected_CLs_locals other_fit model_maker solver_kwargs
          params test_mu hyperparams = Ok L' ->
        l_denominator L' = l_denominator L).
Proof.
  intros HL. apply body_assigned in HL.
  destruct HL as [Hm Hd Hb _ _ _ Hden Hq _ _ _ _ _ _].
  split; [exact Hm|]. split; [exact Hden|]. split; [exact Hd|].
  split; [exact Hq|].
  intros other_fit L' HL'. apply body_assigned in HL'.
  destruct HL' as [Hm' _ _ _ _ _ Hden' _ _ _ _ _ _ _].
  rewrite Hden, Hden'. congruence.
Qed.

(** The call with a [pvalues] that is not passed, or passed empty, runs
    the function under the decorator; every other [pvalues] is refused. *)
Lemma call_default_pvalues : call None = wrapped default_pvalues.
Proof. reflexivity. Qed.

Lemma call_refused (k : string) (rest : list string) :
  call (Some (k :: rest)) = Err TypeError.
Proof. reflexivity. Qed.

(** What the function under the decorator returns for one key. *)
Lemma wrapped_one_key (key : string) :
  wrapped [key] = (body ≫= fun L => v ← dict_item (pdict L) key; Ok [v]).
Proof.
  unfold wrapped, get_expected_CLs_wrapped. fold body.
  destruct body as [L|e]; [|reflexivity].
  rewrite !bind_Ok. cbn [comprehension].
  destruct (dict_item (pdict L) key); reflexivity.
Qed.

(** C6.  The call [get_expected_CLs(params, test_mu, hyperparams,
    pvalues=["p_b"])] of the decorated function raises [TypeError],
    although the docstring gives [pvalues] as a list of strings.  The
    function under the decorator does return the one-element list
    [1 - Φ(0)] = [1/2] whenever its body does not raise, and the call with
    the default [pvalues] returns [CLsb / CLb], which is [CLsb / 0.5]. *)
Theorem p_b_request_refused :
  call (Some ["p_b"]) = Err TypeError
  /\ wrapped ["p_b"]
     = (body ≫= fun L => Ok [(Fin 1 - normal_cdf (Fin 0))%fl])
  /\ wrapped ["p_b"] = (body ≫= fun _ => Ok [Fin (1 / 2)])
  /\ call None
     = (body ≫= fun L => Ok [(l_CLsb L / (Fin 1 - normal_cdf (Fin 0)))%fl])
  /\ call None = (body ≫= fun L => Ok [(l_CLsb L / Fin (1 / 2))%fl]).
Proof.
  assert (Hb : forall L, body = Ok L ->
                 l_CLb L = (Fin 1 - normal_cdf (Fin 0))%fl
                 /\ l_CLb L = Fin (1 / 2)
                 /\ l_CLs L = (l_CLsb L / l_CLb L)%fl).
  { intros L HL. apply body_assigned in HL.
    pose proof (assigned_CLb _ _ _ _ _ _ _ _ _ _ HL) as Hhalf.
    destruct HL as [_ _ _ _ _ _ _ _ _ _ _ Halt HCLb HCLs].
    split; [now rewrite HCLb, Halt|]. split; [exact Hhalf | exact HCLs]. }
  assert (Hp : forall (f : locals Data -> fnum),
                 (forall L, body = Ok L -> l_CLb L = f L) ->
                 wrapped ["p_b"] = (body ≫= fun L => Ok [f L])).
  { intros f Hf. rewrite wrapped_one_key.
    destruct body as [L|e] eqn:HL; [|reflexivity].
    rewrite !bind_Ok. unfold dict_item.
    rewrite pdict_lookup, decide_True by reflexivity.
    rewrite bind_Ok. now rewrite (Hf L). }
  assert (Hc : forall (f : locals Data -> fnum),
                 (forall L, body = Ok L -> l_CLs L = f L) ->
                 call None = (body ≫= fun L => Ok [f L])).
  { intros f Hf. rewrite call_default_pvalues. unfold default_pvalues.
    rewrite wrapped_one_key.
    destruct body as [L|e] eqn:HL; [|reflexivity].
    rewrite !bind_Ok. unfold dict_item. rewrite pdict_lookup.
    repeat case_decide; try discriminate; try congruence.
    rewrite bind_Ok. now rewrite (Hf L). }
  split; [reflexivity|].
  split; [apply Hp; intros L HL; apply (Hb L HL)|].
  split; [apply Hp; intros L HL; apply (Hb L HL)|].
  split; apply Hc; intros L HL; destruct (Hb L HL) as (E1 & E2 & E3).
  - now rewrite E3, E1.
  - now rewrite E3, E2.
Qed.

(** The function under the decorator.  With a string in [pvalues] that is
    not one of CLs, p_sb and p_b it fails: its body raises, or else the
    lookup of the first such string raises [KeyError].  With recognised
    keys only it returns, when its body does not raise, a list as long as
    [pvalues] whose elements are the values of the keys, in the order of
    the keys. *)
Lemma wrapped_selection (pvalues : list string) :
  (Exists (fun k => recognised k = false) pvalues ->
   raises (wrapped pvalues)
   /\ forall L : locals Data,
        body = Ok L ->
        exists before k after,
          pvalues = before ++ k :: after
          /\ Forall (fun k' => recognised k' = true) before
          /\ recognised k = false
          /\ wrapped pvalues = Err (KeyError k))
  /\ (Forall (fun k => recognised k = true) pvalues ->
      forall L : locals Data,
        body = Ok L ->
        exists out : list fnum,
          wrapped pvalues = Ok out
          /\ length out = length pvalues
          /\ forall (i : nat) (k : string),
               pvalues !! i = Some k -> out !! i = pdict L !! k).
Proof.
  assert (Hnone : forall (L : locals Data) k,
             recognised k = false <-> pdict L !! k = None).
  { intros L k. rewrite <- not_true_iff_false, pdict_recognised.
    rewrite <- eq_None_not_Some. reflexivity. }
  assert (Hbad : forall L : locals Data,
             Exists (fun k => recognised k = false) pvalues ->
             body = Ok L ->
             exists before k after,
               pvalues = before ++ k :: after
               /\ Forall (fun k' => recognised k' = true) before
               /\ recognised k = false
               /\ wrapped pvalues = Err (KeyError k)).
  { intros L Hex HL.
    destruct (comprehension_first_missing (pdict L) pvalues)
      as (before & k & after & E & Hb & Hk & Hc).
    { eapply Exists_impl; [exact Hex|]. intros k. apply Hnone. }
    exists before, k, after. split; [exact E|]. split; [|split].
    - eapply Forall_impl; [exact Hb|]. intros k'.
      apply (pdict_recognised _ L).
    - now apply (Hnone L).
    - unfold wrapped, get_expected_CLs_wrapped. fold body. now rewrite HL, bind_Ok. }
  split.
  - intros Hex. split; [|intros L HL; now apply (Hbad L)].
    destruct body as [L|e] eqn:HL.
    + destruct (Hbad L Hex eq_refl) as (? & ? & ? & _ & _ & _ & ->).
      exact I.
    + unfold wrapped, get_expected_CLs_wrapped. fold body. rewrite HL. exact I.
  - intros Hall L HL.
    destruct (comprehension_all_present (pdict L) pvalues)
      as (out & E & Hlen & Hnth).
    { eapply Forall_impl; [exact Hall|]. intros k.
      apply (pdict_recognised _ L). }
    exists out. split; [|split; assumption].
    unfold wrapped, get_expected_CLs_wrapped. fold body. now rewrite HL, bind_Ok.
Qed.

(** C7.  A call of the decorated function with any non-empty [pvalues]
    raises [TypeError] before the function runs, recognised keys or not:
    so does the call with the recognised keys p_b and CLs.  The function
    under the decorator returns, for these two keys, the two values in the
    order of the keys, and raises [KeyError] on the unrecognised key
    CLb. *)
Theorem explicit_pvalues_refused (k : string) (rest : list string) :
  call (Some (k :: rest)) = Err TypeError
  /\ call (Some ["p_b"; "CLs"]) = Err TypeError
  /\ wrapped ["p_b"; "CLs"] = (body ≫= fun L => Ok [l_CLb L; l_CLs L])
  /\ wrapped ["CLb"] = (body ≫= fun _ => Err (KeyError "CLb")).
Proof.
  split; [reflexivity|]. split; [reflexivity|].
  unfold wrapped, get_expected_CLs_wrapped. fold body.
  destruct body as [L|e]; [|split; reflexivity].
  rewrite !bind_Ok. cbn [comprehension]. unfold dict_item.
  rewrite !pdict_lookup. split.
  - repeat case_decide; try discriminate; try congruence. reflexivity.
  - repeat case_decide; try discriminate. reflexivity.
Qed.


End InferenceClaims.

(* ===================================================================== *)
(** * The claims at concrete calls                                        *)
(* ===================================================================== *)

Section Examples.

Import Toy.

(** The call of the examples: the square model, no solver option. *)
Let plain (test_mu : fnum) :=
  get_expected_CLs_locals still_fit square_maker ∅ tt test_mu None.

(** A statistic of 2 at [test_mu = 1]: [sqrtqmu] is [sqrt 2]. *)
Lemma sqrtqmu_without_clamp_witness :
  exists L,
    plain (Fin 1) = Ok L /\ l_sqrtqmu L = Fin (sqrt 2) /\ 0 <= sqrt 2.
Proof.
  eexists. split; [reflexivity|].
  refine (proj1 (proj2 (proj2
    (sqrtqmu_without_clamp unit unit vec still_fit square_maker ∅ tt
       (Fin 1) None _ eq_refl))) 2 _ _ _).
  - apply flt_lt. lra.
  - cbn. same_real.
  - lra.
Defined.

(** The boundary case [muhat = test_mu = 0] with a statistic of 2, zeroed
    by the selection; and [muhat = 0 < test_mu = 1] with a statistic of 2,
    used as it is. *)
Lemma exclusion_zeroing_witness :
  (exists L,
     get_expected_CLs_locals drift_fit nuisance_maker ∅ tt (Fin 0) None
     = Ok L
     /\ l_muhat L = Fin 0 /\ l_profile_likelihood L = Fin 2
     /\ l_sqrtqmu L = Fin 0 /\ l_CLsb L = Fin (1 / 2))
  /\ (exists L,
        plain (Fin 1) = Ok L
        /\ l_muhat L = Fin 0 /\ l_profile_likelihood L = Fin 2
        /\ l_sqrtqmu L = Fin (sqrt 2)).
Proof.
  split.
  - eexists. split; [reflexivity|].
    match goal with
    | |- l_muhat ?r = _ /\ _ =>
        assert (HL : get_expected_CLs_locals drift_fit nuisance_maker ∅ tt
                       (Fin 0) None = Ok r) by reflexivity;
        destruct (exclusion_zeroing unit unit vec drift_fit nuisance_maker
                    ∅ tt (Fin 0) None r HL)
          as (m & bo & ln & ld & muhat & Hm & _ & _ & _ & _ & Hmu & _ & _
              & _ & Hz & _)
    end.
    cbv [nuisance_maker] in Hm. injection Hm as <- <-.
    cbn in Hmu. injection Hmu as <-.
    split; [reflexivity|]. split; [cbn; same_real|].
    apply (Hz 0 0 eq_refl eq_refl). lra.
  - eexists. split; [reflexivity|].
    match goal with
    | |- l_muhat ?r = _ /\ _ =>
        assert (HL : plain (Fin 1) = Ok r) by reflexivity;
        destruct (exclusion_zeroing unit unit vec still_fit square_maker
                    ∅ tt (Fin 1) None r HL)
          as (m & bo & ln & ld & muhat & Hm & _ & _ & Hln & Hld & Hmu & _
              & _ & _ & _ & Hlt)
    end.
    cbv [square_maker] in Hm. injection Hm as <- <-.
    cbn in Hmu. injection Hmu as <-.
    cbn in Hln, Hld. injection Hln as <-. injection Hld as <-.
    split; [reflexivity|]. split; [cbn; same_real|].
    rewrite (proj1 (Hlt ltac:(apply flt_lt; lra))).
    transitivity (fsqrt (Fin 2)); [f_equal; cbn; same_real|].
    apply fsqrt_nonneg. lra.
Defined.

Lemma denominator_is_bonlypars_witness :
  exists L,
    plain (Fin 1) = Ok L
    /\ l_denominator L = l_bonlypars L /\ l_bonlypars L = [Fin 0; Fin 1].
Proof.
  eexists. split; [reflexivity|]. split; [|reflexivity].
  exact (proj1 (proj2
    (denominator_is_bonlypars unit unit vec still_fit square_maker ∅ tt
       (Fin 1) None _ eq_refl))).
Defined.


(** C3, as the code has it.  With the linear model and [test_mu = 1] the
    best-fit signal strength 0 is below [test_mu], the profile-likelihood
    statistic is -2, and its square root, taken without a clamp, is nan;
    so are [p_sb] and the [CLs] that the call with the default [pvalues]
    returns. *)
Lemma sqrtqmu_nan_on_negative_statistic :
  exists L,
    get_expected_CLs_locals still_fit linear_maker ∅ tt (Fin 1) None = Ok L
    /\ l_muhat L = Fin 0
    /\ flt (l_muhat L) (Fin 1) = true
    /\ l_profile_likelihood L = Fin (-2)
    /\ l_sqrtqmu L = NaN
    /\ ~ (exists r : R, l_sqrtqmu L = Fin r /\ 0 <= r)
    /\ l_CLsb L = NaN
    /\ get_expected_CLs still_fit linear_maker ∅ tt (Fin 1) None None
       = Ok [NaN].
Proof.
  eexists. split; [reflexivity|].
  match goal with |- l_muhat ?r = _ /\ _ => set (L := r) end.
  assert (Hm : l_muhat L = Fin 0) by reflexivity.
  assert (Hlt : flt (l_muhat L) (Fin 1) = true).
  { rewrite Hm. apply flt_lt. lra. }
  assert (Hq : l_profile_likelihood L = Fin (-2)).
  { cbn. same_real. }
  assert (Hs : l_sqrtqmu L = NaN).
  { change (l_sqrtqmu L)
      with (fsqrt (fwhere (flt (l_muhat L) (Fin 1))
                     (l_profile_likelihood L) (Fin 0.0))).
    rewrite Hlt, Hq. apply fsqrt_negative. lra. }
  assert (Hsb : l_CLsb L = NaN).
  { change (l_CLsb L) with (Fin 1 - normal_cdf (l_sqrtqmu L))%fl.
    now rewrite Hs. }
  split; [exact Hm|]. split; [exact Hlt|]. split; [exact Hq|].
  assert (Hc : l_CLs L = NaN).
  { change (l_CLs L) with (l_CLsb L / l_CLb L)%fl. now rewrite Hsb. }
  split; [exact Hs|]. split; [|split; [exact Hsb|]].
  - rewrite Hs. intros (r & Hr & _). discriminate Hr.
  - unfold get_expected_CLs, jit_pvalues, default_pvalues.
    rewrite bind_Ok. unfold get_expected_CLs_wrapped.
    change (get_expected_CLs_locals still_fit linear_maker ∅ tt (Fin 1) None)
      with (Ok L).
    rewrite bind_Ok. cbn [comprehension]. unfold dict_item.
    rewrite pdict_lookup. repeat case_decide; try discriminate;
      try congruence.
    now rewrite Hc.
Qed.

End Examples.

(* ===================================================================== *)
(** * Further properties of the transforms                                *)
(* ===================================================================== *)

Section Scalar.

Implicit Types (a b x y : R).

(** X1.  [to_bounded] is many-to-one: it has the period 2 π and takes the
    same value at x and at π - x, for every bound pair. *)
Theorem to_bounded_periodic (x : R) (bounds : fnum * fnum) :
  to_bounded (Fin (x + 2 * PI)) bounds = to_bounded (Fin x) bounds
  /\ to_bounded (Fin (PI - x)) bounds = to_bounded (Fin x) bounds.
Proof.
  destruct bounds as [lo hi]. unfold to_bounded. cbn [fsin].
  now rewrite sin_plus, sin_2PI, cos_2PI, sin_PI_x, Rmult_1_r, Rmult_0_r,
    Rplus_0_r.
Qed.

End Scalar.

Section Stretch.

Variable f : fnum -> fnum -> fnum.

(** An array of length one on the left is stretched over the right one. *)
Lemma broadcast_single_l (x : fnum) (ys : vec) :
  broadcast f [x] ys = Ok (map (f x) ys).
Proof. reflexivity. Qed.

(** An array of length one on the right is stretched over the left one. *)
Lemma broadcast_single_r (xs : vec) (y : fnum) :
  broadcast f xs [y] = Ok (map (fun x => f x y) xs).
Proof. destruct xs as [|x [|x' xs]]; reflexivity. Qed.

End Stretch.

Section VectorTransforms.

Implicit Types (xs ys param : vec) (bounds : list (fnum * fnum)).

(** X8.  On a non-empty bounds table and a vector of the same length, both
    vectorised transforms return the scalar transform of each component
    with the row of the same position. *)
Theorem vectorised_per_component param bounds :
  bounds <> [] -> length param = length bounds ->
  to_bounded_vec param bounds = Ok (zip_with to_bounded param bounds)
  /\ to_inf_vec param bounds = Ok (zip_with to_inf param bounds)
  /\ forall (i : nat) x bd,
       param !! i = Some x -> bounds !! i = Some bd ->
       zip_with to_bounded param bounds !! i = Some (to_bounded x bd)
       /\ zip_with to_inf param bounds !! i = Some (to_inf x bd).
Proof.
  intros Hne Hlen.
  split; [now apply to_bounded_vec_pointwise|].
  split; [now apply to_inf_vec_pointwise|].
  intros i x bd Hx Hbd. unfold vec in *.
  rewrite !lookup_zip_with, Hx, Hbd. now split.
Qed.

Lemma vectorised_per_component_witness :
  to_bounded_vec [Fin 0; Fin 1] Toy.bounds
  = Ok (zip_with to_bounded [Fin 0; Fin 1] Toy.bounds).
Proof.
  apply (vectorised_per_component [Fin 0; Fin 1] Toy.bounds);
    [discriminate | reflexivity].
Defined.

(** X9.  Both vectorised transforms raise [IndexError] on an empty bounds
    table, and raise a shape error when the vector and the table have
    different lengths, neither of them 1. *)
Theorem vectorised_shape_errors param bounds :
  to_bounded_vec param [] = Err IndexError
  /\ to_inf_vec param [] = Err IndexError
  /\ (bounds <> [] -> length param <> length bounds ->
      length param <> 1%nat -> length bounds <> 1%nat ->
      to_bounded_vec param bounds = Err ShapeError
      /\ to_inf_vec param bounds = Err ShapeError).
Proof.
  split; [reflexivity|]. split; [reflexivity|].
  intros Hne Hlen Hp Hb. unfold to_bounded_vec, to_inf_vec, columns.
  destruct bounds as [|bd bounds']; [congruence|].
  set (bs := bd :: bounds') in *. rewrite !bind_Ok.
  unfold vsub, vmul, vmuls, vadds, vsin, smulv. split.
  - rewrite broadcast_same_length, bind_Ok by (now rewrite !length_map).
    rewrite broadcast_mismatch;
      [reflexivity | | |];
      rewrite ?length_map, ?length_zip_with, ?length_map; lia.
  - rewrite (broadcast_mismatch fsub (map _ param));
      [reflexivity | | |]; rewrite ?length_map; lia.
Qed.

Lemma vectorised_shape_errors_witness :
  to_inf_vec [Fin 1; Fin 1]
    [(Fin 0, Fin 10); (Fin 0, Fin 10); (Fin 0, Fin 10)]
  = Err ShapeError.
Proof.
  apply (vectorised_shape_errors [Fin 1; Fin 1]
           [(Fin 0, Fin 10); (Fin 0, Fin 10); (Fin 0, Fin 10)]);
    cbn; congruence.
Defined.

(** X10.  A bounds table of one row is stretched over the whole vector,
    and a vector of one component over the whole table of [to_bounded_vec]:
    no shape error is raised. *)
Theorem vectorised_stretching param (bd : fnum * fnum) (x : fnum) bounds :
  to_bounded_vec param [bd] = Ok (map (fun p => to_bounded p bd) param)
  /\ to_inf_vec param [bd] = Ok (map (fun p => to_inf p bd) param)
  /\ (bounds <> [] ->
      to_bounded_vec [x] bounds = Ok (map (to_bounded x) bounds)).
Proof.
  split; [|split].
  - destruct bd as [a b]. unfold to_bounded_vec, columns.
    cbn [map fst snd]. rewrite bind_Ok.
    unfold vsub, vmul, vadd, vmuls, vadds, vsin.
    rewrite broadcast_single_l, bind_Ok. cbn [map].
    rewrite broadcast_single_l, bind_Ok, broadcast_single_l.
    now rewrite !map_map.
  - destruct bd as [a b]. unfold to_inf_vec, columns.
    cbn [map fst snd]. rewrite bind_Ok.
    unfold vsub, vdiv, vsubs, smulv, varcsin.
    rewrite !broadcast_single_r, !bind_Ok. cbn [map].
    rewrite broadcast_single_r, bind_Ok.
    now rewrite !map_map.
  - intros Hne. unfold to_bounded_vec, columns.
    destruct bounds as [|bd0 bounds']; [congruence|].
    set (bs := bd0 :: bounds'). rewrite bind_Ok.
    unfold vsub, vmul, vadd, vmuls, vadds, vsin.
    rewrite broadcast_same_length, bind_Ok by (now rewrite !length_map).
    cbn [map]. rewrite broadcast_single_r, bind_Ok.
    rewrite broadcast_same_length
      by (now rewrite !length_map, length_zip_with, !length_map; lia).
    f_equal. clearbody bs. clear.
    induction bs as [|[a b] bs IH]; [reflexivity|].
    cbn [map zip_with fst snd to_bounded]. f_equal. exact IH.
Qed.

Lemma vectorised_stretching_witness :
  to_bounded_vec [Fin 0] Toy.bounds
  = Ok (map (to_bounded (Fin 0)) Toy.bounds).
Proof.
  apply (vectorised_stretching [] (Fin 0, Fin 1) (Fin 0) Toy.bounds).
  discriminate.
Defined.

End VectorTransforms.

(* ===================================================================== *)
(** * Further properties of [get_expected_CLs]                            *)
(* ===================================================================== *)

Lemma density_nonneg (t : R) : 0 <= density t.
Proof.
  unfold density. apply Rlt_le, Rdiv_lt_0_compat; [apply exp_pos|].
  apply sqrt_lt_R0. pose proof PI_RGT_0. lra.
Qed.

(** Φ is at least one half on the non-negative numbers. *)
Lemma Phi_ge_half (x : R) : 0 <= x -> 1 / 2 <= Phi x.
Proof.
  intros Hx. unfold Phi.
  pose proof (RiemannInt_P19 (RiemannInt_P14 0 x 0) (density_integrable 0 x)
                Hx (fun t _ => density_nonneg t)) as Hint.
  rewrite RiemannInt_P15 in Hint. lra.
Qed.

(** The square root of the code is nan, +inf or a non-negative number. *)
Lemma fsqrt_range (x : fnum) :
  fsqrt x = NaN \/ fsqrt x = PInf \/ exists r, fsqrt x = Fin r /\ 0 <= r.
Proof.
  destruct x as [a| | |]; cbn [fsqrt]; auto.
  destruct (Rlt_dec a 0); auto.
  right; right. exists (sqrt a). split; [reflexivity | apply sqrt_pos].
Qed.

Lemma fdiv_by_half (c : R) : (Fin c / Fin (1 / 2))%fl = Fin (2 * c).
Proof.
  cbn [fdiv]. destruct (Req_dec_T (1 / 2) 0) as [E|_]; [lra|]. same_real.
Qed.

(** Stretching and shape errors of [to_inf_vec] on a vector of length 2,
    the length of the initial point of the fit. *)
Lemma to_inf_vec_pair_mismatch (x y : fnum) (bounds : list (fnum * fnum)) :
  (2 < length bounds)%nat -> to_inf_vec [x; y] bounds = Err ShapeError.
Proof.
  intros Hlen. unfold to_inf_vec, columns.
  destruct bounds as [|bd bounds']; [cbn in Hlen; lia|].
  set (bs := bd :: bounds') in *. rewrite bind_Ok. unfold vsub, smulv.
  rewrite (broadcast_mismatch fsub (map _ [x; y]));
    [reflexivity | | |]; rewrite ?length_map; cbn [length]; lia.
Qed.

Section InferenceFacts.

Variables Params Hyper Data : Type.
Variable constrained_fit :
  maker Params Hyper Data -> gmap string pyval -> fitter Params Hyper.
Variable model_maker : maker Params Hyper Data.
Variable solver_kwargs : gmap string pyval.
Variable params : Params.
Variable test_mu : fnum.
Variable hyperparams : option Hyper.

Let body :=
  get_expected_CLs_locals constrained_fit model_maker solver_kwargs
    params test_mu hyperparams.

Let call :=
  get_expected_CLs constrained_fit model_maker solver_kwargs
    params test_mu hyperparams.

Let c_fitter := constrained_fit model_maker solver_kwargs.

Let assigned' :=
  assigned Params Hyper Data constrained_fit model_maker solver_kwargs
    params test_mu hyperparams.

(** A call with the default [pvalues] returns the body's exception, or
    the comprehension over the body's [pdict]. *)
Lemma call_unfold :
  call None
  = body ≫= fun L => comprehension (dict_item (pdict L)) default_pvalues.
Proof. reflexivity. Qed.

Lemma call_default (L : locals Data) :
  body = Ok L -> call None = Ok [l_CLs L].
Proof.
  intros HL. rewrite call_unfold, HL, bind_Ok.
  unfold default_pvalues. cbn [comprehension]. unfold dict_item.
  rewrite pdict_lookup. repeat case_decide; try discriminate; try congruence.
  reflexivity.
Qed.

(** The zeroed statistic. *)
Lemma assigned_zeroed (L : locals Data) :
  assigned' L -> flt (l_muhat L) test_mu = false ->
  l_sqrtqmu L = Fin 0 /\ l_CLsb L = Fin (1 / 2).
Proof.
  intros A Hlt. destruct A as [_ _ _ _ _ _ _ _ _ Hsq Hsb _ _ _].
  assert (S0 : l_sqrtqmu L = Fin 0) by (rewrite Hsq, Hlt; apply fsqrt_0).
  split; [exact S0|]. rewrite Hsb, S0, normal_cdf_0. apply one_minus_half.
Qed.

(** The range of [CLsb] and [CLs]. *)
Lemma assigned_range (L : locals Data) :
  assigned' L ->
  (l_CLsb L = NaN /\ l_CLs L = NaN)
  \/ exists c : R, l_CLsb L = Fin c /\ c <= 1 / 2 /\ l_CLs L = Fin (2 * c).
Proof.
  intros A. pose proof (assigned_CLb _ _ _ _ _ _ _ _ _ _ A) as Hb.
  destruct A as [_ _ _ _ _ _ _ _ _ Hsq Hsb _ _ HCLs].
  rewrite HCLs, Hb, Hsb, Hsq.
  destruct (fsqrt_range (fwhere (flt (l_muhat L) test_mu)
                           (l_profile_likelihood L) (Fin 0.0)))
    as [-> | [-> | (r & -> & Hr)]].
  - left. split; reflexivity.
  - right. exists (1 + - 1). cbn [normal_cdf fsub fadd fopp].
    split; [reflexivity|]. split; [lra|]. apply fdiv_by_half.
  - right. exists (1 + - Phi r). cbn [normal_cdf fsub fadd fopp].
    split; [reflexivity|].
    split; [pose proof (Phi_ge_half r Hr); lra|]. apply fdiv_by_half.
Qed.

(** X12.  When [muhat < test_mu] is false the call returns a [CLs] of
    exactly 1: with the default [pvalues] the result is the list [1]. *)
Theorem CLs_is_one_when_zeroed (L : locals Data) :
  body = Ok L -> flt (l_muhat L) test_mu = false ->
  l_CLs L = Fin 1 /\ call None = Ok [Fin 1].
Proof.
  intros HL Hlt. pose proof (body_assigned _ _ _ _ _ _ _ _ _ _ HL) as A.
  assert (E : l_CLs L = Fin 1).
  { destruct (assigned_zeroed L A Hlt) as [_ Hsb].
    pose proof (assigned_CLb _ _ _ _ _ _ _ _ _ _ A) as Hb.
    destruct A as [_ _ _ _ _ _ _ _ _ _ _ _ _ HCLs].
    rewrite HCLs, Hsb, Hb, fdiv_by_half. same_real. }
  split; [exact E|]. rewrite (call_default L HL). now rewrite E.
Qed.

(** X13.  Whenever the body does not raise, [p_sb] is nan or a real number
    not above 1/2, and [CLs] is nan with it or twice it, so not above 1. *)
Theorem CLs_at_most_one (L : locals Data) :
  body = Ok L ->
  (l_CLsb L = NaN /\ l_CLs L = NaN)
  \/ exists c : R,
       l_CLsb L = Fin c /\ c <= 1 / 2
       /\ l_CLs L = Fin (2 * c) /\ 2 * c <= 1.
Proof.
  intros HL. apply body_assigned in HL.
  destruct (assigned_range L HL) as [H | (c & Hsb & Hc & Hs)];
    [now left|].
  right. exists c. repeat (split; [assumption|]). lra.
Qed.

(** X15.  With [pdf_transform] true the initial point, of length 2, must
    fit the model's bounds table: the body, and with it the call with the
    default [pvalues], raises [IndexError] on an empty table and a shape
    error on a table of more than two rows. *)
Theorem transform_needs_fitting_bounds (v : pyval) :
  solver_kwargs !! "pdf_transform" = Some v -> truthy v = true ->
  let bounds :=
    suggested_bounds (config (fst (model_maker (params, hyperparams)))) in
  (bounds = [] -> body = Err IndexError /\ call None = Err IndexError)
  /\ ((2 < length bounds)%nat ->
      body = Err ShapeError /\ call None = Err ShapeError).
Proof.
  intros Hkey Hv bounds.
  assert (H : forall e, to_inf_vec [test_mu; Fin 1.0] bounds = Err e ->
                        body = Err e /\ call None = Err e).
  { intros e He.
    assert (Hb : body = Err e).
    { unfold body, get_expected_CLs_locals.
      subst bounds. destruct (model_maker (params, hyperparams)) as [m bo].
      cbn [fst] in He. unfold fit_initval, transforms_flag, dict_get.
      now rewrite Hkey, Hv, He. }
    split; [exact Hb|]. now rewrite call_unfold, Hb. }
  split.
  - intros E. apply H. now rewrite E.
  - intros Hlen. apply H. now apply to_inf_vec_pair_mismatch.
Qed.

End InferenceFacts.

Section FurtherExamples.

Import Toy.

(** The square model with a bounds table of three rows. *)
Let wide_maker : maker unit unit vec :=
  fun _ =>
    ({| config := {| suggested_bounds := (Fin 0, Fin 10) :: bounds |};
        expected_data := expected_data square_model;
        logpdf := logpdf square_model |},
     [Fin 0; Fin 1]).

Let transformed : gmap string pyval := {["pdf_transform" := PyBool true]}.

Lemma CLs_is_one_when_zeroed_witness :
  get_expected_CLs still_fit square_maker ∅ tt (Fin 0) None None
  = Ok [Fin 1].
Proof.
  refine (proj2
    (CLs_is_one_when_zeroed unit unit vec still_fit square_maker ∅ tt
       (Fin 0) None _ eq_refl _)).
  apply flt_ge. lra.
Defined.

Lemma CLs_at_most_one_witness :
  exists L,
    get_expected_CLs_locals still_fit square_maker ∅ tt (Fin 1) None = Ok L
    /\ ((l_CLsb L = NaN /\ l_CLs L = NaN)
        \/ exists c : R,
             l_CLsb L = Fin c /\ c <= 1 / 2
             /\ l_CLs L = Fin (2 * c) /\ 2 * c <= 1).
Proof.
  eexists. split; [reflexivity|].
  exact (CLs_at_most_one unit unit vec still_fit square_maker ∅ tt
           (Fin 1) None _ eq_refl).
Defined.

Lemma transform_needs_fitting_bounds_witness :
  get_expected_CLs still_fit wide_maker transformed tt (Fin 1) None None
  = Err ShapeError.
Proof.
  refine (proj2 (proj2
    (transform_needs_fitting_bounds unit unit vec still_fit wide_maker
       transformed tt (Fin 1) None (PyBool true) eq_refl eq_refl)
    _)).
  cbn. lia.
Defined.

End FurtherExamples.
